(** * jsonschema2graphql: the schema reducer

    A shallow embedding of [src/schemaReducer.ts] and of the batch fold of
    [src/index.ts], with the properties of the type registry, of the lazy
    object field maps and of [$ref] resolution.

    Conventions of the embedding.
    - A JavaScript exception is a value [Err e] of the [result] monad; a
      [throw] inside [Array.prototype.map], [_.mapValues] or
      [Array.prototype.reduce] aborts the traversal at the first failing
      element.
    - [knownTypes] is the one mutable object of the program.  [buildType]
      only reads it and [schemaReducer] writes one key, so it is threaded
      explicitly.  It is a plain JavaScript object: a read finds its own
      keys and, failing that, the members it inherits from
      [Object.prototype]; a write to [__proto__] replaces the prototype and
      adds no own key.  [BASIC_TYPE_MAPPING], an object literal, is read the
      same way.  Which keys a value installed as prototype adds to the
      chain beyond those of [Object.prototype] (the instance and class
      members of graphql-js) is a parameter, [chainHas]; what the chain
      yields under such a key is kept opaque.
    - The [fields] thunk of an object type is defunctionalised: the type
      stores what the arrow function closes over (the camel-cased name, the
      schema node and the hook), and [fields] runs its body against the
      registry as it stands when the thunk is called.
    - The classes of graphql-js are free constructors; the checks their
      constructors perform on their arguments are not part of this file. *)

From stdpp Require Import gmap strings list.
From Stdlib Require Import Ascii DecimalString.

Local Open Scope string_scope.

#[local] Set Warnings "-clear-no-such-hyp".

(** ** Results and errors *)

(** The four [err(...)] sites of the reducer, and the [TypeError] JavaScript
    raises when [buildType] reads [oneOf] of an [undefined] schema. *)
Inductive error : Type :=
| MissingId
| OnlyStringEnums (name : string)
| UnknownReference (ref : string) (name : string)
| UnknownType (type : option string) (name : string)
| TypeErrorUndefined.

Inductive result (A : Type) : Type :=
| Ok (a : A)
| Err (e : error).
Arguments Ok {A} a.
Arguments Err {A} e.

#[global] Instance result_ret : MRet result := fun A a => Ok a.

#[global] Instance result_bind : MBind result := fun A B k m =>
  match m with
  | Ok a => k a
  | Err e => Err e
  end.

Definition is_ok {A : Type} (m : result A) : bool :=
  match m with Ok _ => true | Err _ => false end.

Section Traversals.

Context {A B : Type}.

(** [xs.map(f)] over the own keys of an array, where [f] may throw: left to
    right, the first failure aborts the traversal.  [f] receives the index
    of the element, counted from [i]. *)
Definition mapiM (f : nat -> A -> result B) : nat -> list A -> result (list B) :=
  fix go (i : nat) (xs : list A) {struct xs} : result (list B) :=
    match xs with
    | [] => Ok []
    | x :: rest =>
        y ← f i x;
        ys ← go (S i) rest;
        Ok (y :: ys)
    end.

(** [_.mapValues(obj, f)] where [f] may throw; [f] receives the value and
    its key, and the result keeps the keys in their order. *)
Definition mapValuesM (f : A -> string -> result B) : list (string * A) -> result (list (string * B)) :=
  fix go (obj : list (string * A)) {struct obj} : result (list (string * B)) :=
    match obj with
    | [] => Ok []
    | (k, v) :: rest =>
        y ← f v k;
        ys ← go rest;
        Ok ((k, y) :: ys)
    end.

End Traversals.

(** [xs.reduce(f, init)] where [f] may throw. *)
Fixpoint reduce {A B : Type} (f : A -> B -> result A) (xs : list B) (init : A) : result A :=
  match xs with
  | [] => Ok init
  | x :: rest => acc ← f init x; reduce f rest acc
  end.

(** ** JSON Schema nodes *)

(** The keys of a [JSONSchema7] object that the reducer reads.  [id_] is
    [$id], [ref_] is [$ref], [then_] is [then].  An absent key is [None].
    The node is held in the form the reducer casts it to: [type] is one
    string, [oneOf] an array of schemas, [items] one schema, [enum] an array
    of strings, and a sub-schema is an object, not a boolean.  [properties]
    lists the own keys of the object in their order. *)
#[local] Unset Elimination Schemes.

Inductive JSONSchema7 : Type := Schema {
  id_ : option string;
  title : option string;
  description : option string;
  type : option string;
  oneOf : option (list JSONSchema7);
  then_ : option JSONSchema7;
  properties : option (list (string * JSONSchema7));
  required : option (list string);
  items : option JSONSchema7;
  enum : option (list string);
  ref_ : option string
}.

#[local] Set Elimination Schemes.

(** JavaScript truthiness of an optional string: defined and not empty. *)
Definition truthy (o : option string) : bool :=
  match o with
  | Some s => negb (String.eqb s "")
  | None => false
  end.

(** [buildDescription(d)]; [None] is [undefined]. *)
Definition buildDescription (d : JSONSchema7) : option string :=
  if truthy (title d) && truthy (description d)
  then Some (default "" (title d) +:+ ": " +:+ default "" (description d))
  else if truthy (title d) then title d
  else if truthy (description d) then description d
  else None.

(** [Object.keys] of an array gives the indices in decimal. *)
Definition caseKey (i : nat) : string := NilZero.string_of_uint (Nat.to_uint i).

(** [caseSchema.then || caseSchema]. *)
Definition unwrapThen (caseSchema : JSONSchema7) : JSONSchema7 :=
  match then_ caseSchema with
  | Some t => t
  | None => caseSchema
  end.

(** [_.isEmpty(schema.properties)]. *)
Definition isEmptyProperties (schema : JSONSchema7) : bool :=
  match properties schema with
  | Some (_ :: _) => false
  | _ => true
  end.

(** [_.includes(schema.required, fieldName)]. *)
Definition isRequired (schema : JSONSchema7) (fieldName : string) : bool :=
  match required schema with
  | Some names => bool_decide (fieldName ∈ names)
  | None => false
  end.

Definition typeIs (schema : JSONSchema7) (t : string) : bool :=
  bool_decide (type schema = Some t).

(** Which [$ref] keys [buildType] looks up while it runs on a node: those
    it reaches through [oneOf] cases and array [items], following the order
    of its branches.  The properties of an object are not among them, since
    [buildType] returns the [fields] thunk without calling it. *)
Fixpoint eagerRefs (schema : JSONSchema7) : list string :=
  match oneOf schema with
  | Some cases => flat_map (fun c => eagerRefs (unwrapThen c)) cases
  | None =>
      if typeIs schema "object" then []
      else if typeIs schema "array" then
        match items schema with
        | Some itemSchema => eagerRefs itemSchema
        | None => []
        end
      else
        match enum schema with
        | Some _ => []
        | None => match ref_ schema with Some ref => [ref] | None => [] end
        end
  end.

(** The names of the members of [Object.prototype], which every plain
    object inherits (ECMAScript, its Annex B included). *)
Definition objectPrototypeKeys : list string :=
  ["constructor"; "__defineGetter__"; "__defineSetter__"; "hasOwnProperty";
   "__lookupGetter__"; "__lookupSetter__"; "isPrototypeOf";
   "propertyIsEnumerable"; "toString"; "valueOf"; "__proto__"; "toLocaleString"].

Definition isObjectPrototypeKey (key : string) : bool :=
  bool_decide (key ∈ objectPrototypeKeys).

(** ** Names and documents for the closed instances *)

Definition isAlnum (c : ascii) : bool :=
  let n := nat_of_ascii c in
  (Nat.leb 48 n && Nat.leb n 57) || (Nat.leb 65 n && Nat.leb n 90) || (Nat.leb 97 n && Nat.leb n 122).

Definition toUpper (c : ascii) : ascii :=
  let n := nat_of_ascii c in
  if Nat.leb 97 n && Nat.leb n 122 then ascii_of_nat (n - 32) else c.

Fixpoint camelWords (boundary : bool) (s : string) : string :=
  match s with
  | EmptyString => EmptyString
  | String c rest =>
      if isAlnum c then String (if boundary then toUpper c else c) (camelWords false rest)
      else camelWords true rest
  end.

(** Modelled from the spec: the npm package [uppercamelcase] is not among the
    sources.  Section 4.1 of the specification: type names get the
    upper-camel-case transformation, non-alphanumeric separators being word
    boundaries.  The theorems below hold for every function in its place;
    this one instantiates them, on short names made of letters, dots and
    underscores. *)
Definition upperCamelCaseModel (s : string) : string := camelWords true s.

(** Modelled from the spec: [./graphqlSafeEnumKey] is not among the sources.
    Section 4.1 of the specification: a literal that is already a legal
    identifier is kept unchanged.  Only such literals are passed to it. *)
Definition safeEnumKeyModel (value : string) : string := value.

(** [{ $id, type }]. *)
Definition typedDoc (id type : string) : JSONSchema7 :=
  Schema (Some id) None None (Some type) None None None None None None None.

(** [{ $ref }]. *)
Definition refNode (ref : string) : JSONSchema7 :=
  Schema None None None None None None None None None None (Some ref).

(** [{ $id: "A", type: "object", properties: { b: { $ref: "B" } } }]. *)
Definition docA : JSONSchema7 :=
  Schema (Some "A") None None (Some "object") None None
    (Some [("b", refNode "B")]) None None None None.

(** [{ $id: "B", type: "object", properties: { name: { type: "string" } },
    required: ["name"] }]. *)
Definition docB : JSONSchema7 :=
  Schema (Some "B") None None (Some "object") None None
    (Some [("name", Schema None None None (Some "string") None None None None None None None)])
    (Some ["name"]) None None None.

(** [{ $id: "L", type: "array", items: { $ref: "B" } }]. *)
Definition docL : JSONSchema7 :=
  Schema (Some "L") None None (Some "array") None None None None
    (Some (refNode "B")) None None.

(** [{ $id: "U", oneOf: [{ $ref: "B" }, { then: { $ref: "A" } }] }]. *)
Definition docU : JSONSchema7 :=
  Schema (Some "U") None None None
    (Some [refNode "B";
           Schema None None None None None (Some (refNode "A")) None None None None None])
    None None None None None None.

(** [{ $id: "E", type: "string", enum: ["a", "b"] }]. *)
Definition docE : JSONSchema7 :=
  Schema (Some "E") None None (Some "string") None None None None None (Some ["a"; "b"]) None.


(** [{ $id: "B", type: "object", properties: { a: { $ref: "A" } } }]. *)
Definition docBack : JSONSchema7 :=
  Schema (Some "B") None None (Some "object") None None
    (Some [("a", refNode "A")]) None None None None.


(** [{ $id: "D", type: "string", enum: ["a", "b", "a"] }]. *)
Definition docDup : JSONSchema7 :=
  Schema (Some "D") None None (Some "string") None None None None None
    (Some ["a"; "b"; "a"]) None.



(** [{ $id: "__proto__", type: "object" }]. *)
Definition docProto : JSONSchema7 :=
  Schema (Some "__proto__") None None (Some "object") None None None None None None None.

(** [{ title: "T", description: "D" }]. *)
Definition titled : JSONSchema7 :=
  Schema None (Some "T") (Some "D") None None None None None None None None.

(** [{ title: "", description: "d" }]. *)
Definition emptyTitle : JSONSchema7 :=
  Schema None (Some "") (Some "d") None None None None None None None None.

(** ** Constructed types *)

(** The second argument of the [getTypeProperties] hook: the class of the
    type under construction. *)
Inductive ShapeMarker : Type := ObjectMarker | EnumMarker.

Section Reducer.

(** The object the [getTypeProperties] hook returns; [./types] declares it.
    The reducer spreads it into the configuration of the type after [name],
    [description] and [fields] (or [values]); it is kept whole as the [extra]
    of the constructed type, and taken to carry none of those keys. *)
Variable TypeProperties : Type.

(** [uppercamelcase], the npm package. *)
Variable uppercamelcase : string -> string.

(** [graphqlSafeEnumKey], from [./graphqlSafeEnumKey]. *)
Variable graphqlSafeEnumKey : string -> string.

Definition GetTypeProperties : Type := string -> ShapeMarker -> TypeProperties.

(** What the arrow function [fields] of an object type closes over, besides
    the shared [knownTypes]. *)
Record FieldsThunk : Type := Thunk {
  thunk_name : string;
  thunk_schema : JSONSchema7;
  thunk_hook : option GetTypeProperties
}.

#[local] Unset Elimination Schemes.

(** The values that flow where the reducer expects a type: the types of
    graphql-js, and [InheritedMember key], the truthy value the prototype
    chain of the registry yields under [key]: for the name of a member of
    [Object.prototype] a function, or [Object.prototype] itself for
    [__proto__]. *)
Inductive GraphQLType : Type :=
| GraphQLString
| GraphQLInt
| GraphQLFloat
| GraphQLBoolean
| GraphQLList (ofType : GraphQLType)
| GraphQLNonNull (ofType : GraphQLType)
| GraphQLObjectType (name : string) (descr : option string)
    (fieldsThunk : FieldsThunk) (extra : option TypeProperties)
| GraphQLEnumType (name : string) (descr : option string)
    (values : list (string * string)) (extra : option TypeProperties)
| GraphQLUnionType (name : string) (descr : option string)
    (types : list GraphQLType)
| InheritedMember (key : string).

#[local] Set Elimination Schemes.

(** One entry of an object's field map: [{ type, description }]. *)
Record FieldConfig : Type := Field {
  field_type : GraphQLType;
  field_description : option string
}.


Definition isNonNullType (t : GraphQLType) : bool :=
  match t with GraphQLNonNull _ => true | _ => false end.

Definition isObjectType (t : GraphQLType) : bool :=
  match t with GraphQLObjectType _ _ _ _ => true | _ => false end.

(** [BASIC_TYPE_MAPPING[key]], when what it yields is truthy: one of the
    four own keys of the object literal, or a member it inherits. *)
Definition BASIC_TYPE_MAPPING (key : string) : option GraphQLType :=
  if String.eqb key "string" then Some GraphQLString
  else if String.eqb key "integer" then Some GraphQLInt
  else if String.eqb key "number" then Some GraphQLFloat
  else if String.eqb key "boolean" then Some GraphQLBoolean
  else if isObjectPrototypeKey key then Some (InheritedMember key)
  else None.

(** [GraphQLTypeMap], from [./types], as [convert] creates and the reducer
    fills it: the own keys of the object, and its prototype when it is no
    longer [Object.prototype]. *)
Record GraphQLTypeMap : Type := TypeMap {
  own : gmap string GraphQLType;
  proto : option GraphQLType
}.

(** [{}]. *)
Definition emptyTypeMap : GraphQLTypeMap := TypeMap ∅ None.

(** Whether a value that has become the prototype of the registry yields
    something truthy under a key that is no member of [Object.prototype]:
    the instance and class members of graphql-js, which are not among the
    sources. *)
Variable chainHas : GraphQLType -> string -> bool.

(** [knownTypes[key]], when what it yields is truthy: an own key, or else
    the prototype under [__proto__], or else a member inherited from
    [Object.prototype], or else a member of the prototype that replaced
    it. *)
Definition getKey (knownTypes : GraphQLTypeMap) (key : string) : option GraphQLType :=
  match own knownTypes !! key with
  | Some t => Some t
  | None =>
      if String.eqb key "__proto__"
      then Some (default (InheritedMember key) (proto knownTypes))
      else if isObjectPrototypeKey key then Some (InheritedMember key)
      else
        match proto knownTypes with
        | Some v => if chainHas v key then Some (InheritedMember key) else None
        | None => None
        end
  end.

(** [knownTypes[key] = t].  Under [__proto__], unless that is an own key,
    the setter inherited from [Object.prototype] runs: [t], an object,
    becomes the prototype and no own key is added. *)
Definition setKey (knownTypes : GraphQLTypeMap) (key : string) (t : GraphQLType) : GraphQLTypeMap :=
  if String.eqb key "__proto__" && negb (bool_decide (is_Some (own knownTypes !! key)))
  then TypeMap (own knownTypes) (Some t)
  else TypeMap (<[key := t]> (own knownTypes)) (proto knownTypes).

(** [_.keyBy(values, key)]: an object in insertion order of its keys, a
    later value replacing an earlier one under the same key. *)
Fixpoint assign {V : Type} (obj : list (string * V)) (k : string) (v : V) : list (string * V) :=
  match obj with
  | [] => [(k, v)]
  | (k', v') :: rest => if String.eqb k' k then (k', v) :: rest else (k', v') :: assign rest k v
  end.

Definition keyBy (values : list string) (key : string -> string) : list (string * string) :=
  foldl (fun obj v => assign obj (key v) v) [] values.

(** [buildType].  The registry is read, never written; the object branch
    returns the thunk unevaluated. *)
Fixpoint buildType (propName : string) (schema : JSONSchema7)
    (knownTypes : GraphQLTypeMap)
    (getTypeProperties : option GetTypeProperties) {struct schema} : result GraphQLType :=
  let name := uppercamelcase propName in
  match oneOf schema with
  | Some cases =>
      types ← mapiM (fun i caseSchema =>
                 let qualifiedName := name +:+ ".oneOf[" +:+ caseKey i +:+ "]" in
                 buildType qualifiedName (unwrapThen caseSchema) knownTypes getTypeProperties)
               0 cases;
      Ok (GraphQLUnionType name (buildDescription schema) types)
  | None =>
      if typeIs schema "object" then
        Ok (GraphQLObjectType name (buildDescription schema)
              (Thunk name schema getTypeProperties)
              ((fun hook => hook name ObjectMarker) <$> getTypeProperties))
      else if typeIs schema "array" then
        match items schema with
        | Some itemSchema =>
            elementType ← buildType name itemSchema knownTypes getTypeProperties;
            Ok (GraphQLList (GraphQLNonNull elementType))
        | None => Err TypeErrorUndefined
        end
      else
        match enum schema with
        | Some values =>
            if negb (typeIs schema "string") then Err (OnlyStringEnums name)
            else
              Ok (GraphQLEnumType name (buildDescription schema)
                    (keyBy values graphqlSafeEnumKey)
                    ((fun hook => hook name EnumMarker) <$> getTypeProperties))
        | None =>
            match ref_ schema with
            | Some ref =>
                match getKey knownTypes ref with
                | Some t => Ok t
                | None => Err (UnknownReference ref name)
                end
            | None =>
                match type schema ≫= BASIC_TYPE_MAPPING with
                | Some t => Ok t
                | None => Err (UnknownType (type schema) name)
                end
            end
        end
  end.

(** The body of the arrow function [fields] of an object type, run against
    the registry as it stands at the call. *)
Definition fields (thunk : FieldsThunk) (knownTypes : GraphQLTypeMap) : result (list (string * FieldConfig)) :=
  let schema := thunk_schema thunk in
  let name := thunk_name thunk in
  if negb (isEmptyProperties schema) then
    mapValuesM (fun prop fieldName =>
        let qualifiedFieldName := name +:+ "." +:+ fieldName in
        type ← buildType qualifiedFieldName prop knownTypes (thunk_hook thunk);
        Ok (Field (if isRequired schema fieldName then GraphQLNonNull type else type)
              (buildDescription prop)))
      (default [] (properties schema))
  else Ok [("_empty", Field GraphQLString None)].

(** [type.getFields()] of graphql-js on an object type: it calls the thunk.
    Other types have no such method. *)
Definition getFields (t : GraphQLType) (knownTypes : GraphQLTypeMap) : result (list (string * FieldConfig)) :=
  match t with
  | GraphQLObjectType _ _ thunk _ => fields thunk knownTypes
  | _ => Err TypeErrorUndefined
  end.

(** [SchemaData], from [./types]: what [convert] hands to the reducer. *)
Record SchemaData : Type := mkSchemaData {
  schema : JSONSchema7;
  getTypeProperties : option GetTypeProperties
}.

(** [schemaReducer]; [new Ajv().validateSchema(schema)] has no effect on
    the result and is left out. *)
Definition schemaReducer (knownTypes : GraphQLTypeMap) (data : SchemaData) : result GraphQLTypeMap :=
  match id_ (schema data) with
  | None => Err MissingId
  | Some typeName =>
      t ← buildType typeName (schema data) knownTypes (getTypeProperties data);
      Ok (setKey knownTypes typeName t)
  end.

(** The first two statements of [convert]: [schemaArray] and
    [schemaArray.reduce(schemaReducer, {})]. *)
Definition convertTypes (jsonSchema : list JSONSchema7) (hook : option GetTypeProperties) : result GraphQLTypeMap :=
  let schemaArray := map (fun schemaItem => mkSchemaData schemaItem hook) jsonSchema in
  reduce schemaReducer schemaArray emptyTypeMap.

(** The [$id]s of a list of documents, those without one left out. *)
Definition docIds (docs : list SchemaData) : list string :=
  omap (fun d => id_ (schema d)) docs.





(** Nothing the registry yields is a non-null wrapper. *)
Definition nullableRegistry (knownTypes : GraphQLTypeMap) : Prop :=
  forall k t, getKey knownTypes k = Some t -> isNonNullType t = false.

(** The [$id]s that become own keys of the registry. *)
Definition ownIds (docs : list SchemaData) : list string :=
  filter (fun k => k <> "__proto__") (docIds docs).

(** Every read that finds a value on the first registry finds the same
    value on the second. *)
Definition extendsTypeMap (knownTypes knownTypes' : GraphQLTypeMap) : Prop :=
  forall k t, getKey knownTypes k = Some t -> getKey knownTypes' k = Some t.

(** ** Properties *)

(** ** Reading and writing the registry *)

Lemma getKey_setKey_eq knownTypes k t : getKey (setKey knownTypes k t) k = Some t.
Proof.
  unfold getKey, setKey.
  destruct (String.eqb_spec k "__proto__") as [-> | Hk]; cbn [andb].
  - case_bool_decide as Hown; cbn [negb own proto].
    + by rewrite lookup_insert_eq.
    + apply eq_None_not_Some in Hown. by rewrite Hown.
  - cbn [own proto]. by rewrite lookup_insert_eq.
Qed.

Lemma getKey_setKey_ne knownTypes k k' t :
  k <> "__proto__" -> k <> k' -> getKey (setKey knownTypes k t) k' = getKey knownTypes k'.
Proof.
  intros Hk Hne. unfold getKey, setKey.
  destruct (String.eqb_spec k "__proto__") as [-> | _]; [done|].
  cbn [andb own proto]. by rewrite lookup_insert_ne.
Qed.

(** What a read yields after a write: the value written, or what it
    yielded before, or a member of the chain. *)
Lemma getKey_setKey_cases knownTypes k k' t t' :
  getKey (setKey knownTypes k t) k' = Some t' ->
  t' = t \/ getKey knownTypes k' = Some t' \/ t' = InheritedMember k'.
Proof.
  unfold getKey, setKey.
  destruct (String.eqb_spec k "__proto__") as [-> | Hk]; cbn [andb].
  - case_bool_decide as Hown; cbn [negb own proto].
    + rewrite lookup_insert. case_decide as Heq; [intros [= <-]; by left|].
      intros Hget. right. by left.
    + destruct (own knownTypes !! k') as [t0|]; [intros [= <-]; right; by left|].
      destruct (String.eqb_spec k' "__proto__") as [-> | Hk']; [intros [= <-]; by left|].
      destruct (isObjectPrototypeKey k'); [intros [= <-]; by right; right|].
      destruct (chainHas t k'); [intros [= <-]; by right; right | done].
  - cbn [own proto]. rewrite lookup_insert. case_decide as Heq; [intros [= <-]; by left|].
    intros Hget. right. by left.
Qed.

(** A read finds a value exactly under the own keys, under the names of
    the members of [Object.prototype], and under the keys the prototype
    that replaced it has. *)
Lemma getKey_is_Some knownTypes k :
  is_Some (getKey knownTypes k) <->
  k ∈ dom (own knownTypes) \/ k ∈ objectPrototypeKeys \/
  exists v, proto knownTypes = Some v /\ chainHas v k = true.
Proof.
  unfold getKey. rewrite elem_of_dom.
  destruct (own knownTypes !! k) as [t|] eqn:Hown.
  - split; [intros _; left|]; by eexists.
  - destruct (String.eqb_spec k "__proto__") as [-> | Hk].
    + split; [intros _; right; left; set_solver | by eexists].
    + unfold isObjectPrototypeKey. case_bool_decide as Hin.
      * split; [by right; left | by eexists].
      * destruct (proto knownTypes) as [v|].
        -- destruct (chainHas v k) eqn:Hchain.
           ++ split; [intros _; right; right; by exists v | by eexists].
           ++ split; [by intros [? ?]|].
              intros [[? ?] | [? | (v' & [= <-] & ?)]]; [done | done | congruence].
        -- split; [by intros [? ?]|].
           by intros [[? ?] | [? | (v' & ? & ?)]].
Qed.


Lemma own_setKey knownTypes k t :
  dom (own (setKey knownTypes k t)) =
  dom (own knownTypes) ∪ (if decide (k = "__proto__") then ∅ else {[k]}).
Proof.
  unfold setKey. destruct (String.eqb_spec k "__proto__") as [-> | Hk]; cbn [andb].
  - rewrite decide_True by done. case_bool_decide as Hown; cbn [negb own].
    + rewrite dom_insert_L. apply elem_of_dom in Hown. set_solver.
    + set_solver.
  - rewrite decide_False by done. cbn [own]. rewrite dom_insert_L. set_solver.
Qed.

Lemma proto_setKey_ne knownTypes k t :
  k <> "__proto__" -> proto (setKey knownTypes k t) = proto knownTypes.
Proof.
  intros Hk. unfold setKey. by destruct (String.eqb_spec k "__proto__").
Qed.

Lemma getKey_emptyTypeMap k :
  getKey emptyTypeMap k = if isObjectPrototypeKey k then Some (InheritedMember k) else None.
Proof.
  unfold getKey, emptyTypeMap. cbn [own proto]. rewrite lookup_empty.
  destruct (String.eqb_spec k "__proto__") as [-> | Hk]; [done|].
  by destruct (isObjectPrototypeKey k).
Qed.





Lemma elem_of_ownIds_cons (k typeName : string) (ids : list string) :
  (list_to_set (filter (fun k => k <> "__proto__") (typeName :: ids)) : gset string) =
  (if decide (typeName = "__proto__") then ∅ else {[typeName]}) ∪
  list_to_set (filter (fun k => k <> "__proto__") ids).
Proof.
  rewrite filter_cons. destruct (decide (typeName <> "__proto__")) as [Hne|Heq].
  - rewrite decide_False by done. done.
  - rewrite decide_True by (by destruct (decide (typeName = "__proto__"))). set_solver.
Qed.

(** ** Induction on schema nodes *)

Lemma JSONSchema7_nested_ind (P : JSONSchema7 -> Prop) :
  (forall i t d ty o th p r it e rf,
      from_option (Forall P) True o ->
      from_option P True th ->
      from_option (Forall (fun kv => P kv.2)) True p ->
      from_option P True it ->
      P (Schema i t d ty o th p r it e rf)) ->
  forall s, P s.
Proof.
  intros step. fix go 1. intros [i t d ty o th p r it e rf].
  apply step.
  - destruct o as [cases|]; simpl; [|exact I].
    induction cases as [|c cases IH]; constructor; [apply go | exact IH].
  - destruct th as [s|]; simpl; [apply go | exact I].
  - destruct p as [props|]; simpl; [|exact I].
    induction props as [|[k v] props IH]; constructor; [apply go | exact IH].
  - destruct it as [s|]; simpl; [apply go | exact I].
Qed.

(** The induction that follows the calls of [buildType] and of the thunks:
    the unwrapped cases of a [oneOf], the [items], the [properties]. *)
Lemma schema_ind (P : JSONSchema7 -> Prop) :
  (forall s,
      (forall cases, oneOf s = Some cases -> Forall (fun c => P (unwrapThen c)) cases) ->
      (forall itemSchema, items s = Some itemSchema -> P itemSchema) ->
      (forall props, properties s = Some props -> Forall (fun kv => P kv.2) props) ->
      P s) ->
  forall s, P s.
Proof.
  intros step s.
  enough (P s /\ forall t, then_ s = Some t -> P t) as [H _] by exact H.
  induction s as [i t d ty o th p r it e rf IHo IHth IHp IHit] using JSONSchema7_nested_ind.
  split.
  - apply step; simpl.
    + intros cases ->. simpl in IHo.
      eapply Forall_impl; [exact IHo|]. intros c [Hc Hthen]. unfold unwrapThen.
      destruct (then_ c) as [t'|] eqn:E; [by apply Hthen | exact Hc].
    + intros itemSchema ->. exact (proj1 IHit).
    + intros props ->. simpl in IHp.
      eapply Forall_impl; [exact IHp|]. by intros kv [Hkv _].
  - simpl. intros t' ->. exact (proj1 IHth).
Qed.

(** ** The traversals *)

Lemma elem_of_flat_map {A B : Type} (f : A -> list B) (xs : list A) (y : B) :
  y ∈ flat_map f xs <-> exists j x, xs !! j = Some x /\ y ∈ f x.
Proof.
  rewrite list_elem_of_In, in_flat_map. split.
  - intros (x & Hx & Hy). apply list_elem_of_In, list_elem_of_lookup in Hx as [j Hj].
    exists j, x. by rewrite list_elem_of_In.
  - intros (j & x & Hj & Hy). exists x. rewrite <- !list_elem_of_In.
    split; [|done]. apply list_elem_of_lookup; eauto.
Qed.

Lemma mapiM_ok_inv {A B : Type} (f : nat -> A -> result B) (xs : list A) :
  forall i ys, mapiM f i xs = Ok ys ->
    length ys = length xs /\
    forall j x, xs !! j = Some x -> exists y, ys !! j = Some y /\ f (i + j) x = Ok y.
Proof.
  induction xs as [|x xs IH]; intros i ys; simpl.
  - intros [= <-]. split; [done|]. intros j x Hj. by rewrite lookup_nil in Hj.
  - destruct (f i x) as [y|e] eqn:Hfx; simpl; [|done].
    destruct (mapiM f (S i) xs) as [ys'|e] eqn:Hrest; simpl; [|done].
    intros [= <-]. destruct (IH _ _ Hrest) as [Hlen Hall].
    split; [simpl; by rewrite Hlen|].
    intros [|j] x' Hj; simpl in *.
    + injection Hj as <-. exists y. by rewrite Nat.add_0_r.
    + destruct (Hall j x' Hj) as (y' & Hy' & Hf). exists y'.
      split; [done|]. by rewrite <- Nat.add_succ_comm.
Qed.

Lemma mapiM_err_inv {A B : Type} (f : nat -> A -> result B) (xs : list A) :
  forall i e, mapiM f i xs = Err e ->
    exists j x, xs !! j = Some x /\ f (i + j) x = Err e.
Proof.
  induction xs as [|x xs IH]; intros i e; simpl; [done|].
  destruct (f i x) as [y|e'] eqn:Hfx; simpl.
  - destruct (mapiM f (S i) xs) as [ys'|e'] eqn:Hrest; simpl; [done|].
    intros [= <-]. destruct (IH _ _ Hrest) as (j & x' & Hj & Hf).
    exists (S j), x'. split; [done|]. by rewrite <- Nat.add_succ_comm.
  - intros [= <-]. exists 0, x. split; [done|]. by rewrite Nat.add_0_r.
Qed.

Lemma mapiM_ext {A B : Type} (f g : nat -> A -> result B) (xs : list A) :
  forall i, (forall j x, xs !! j = Some x -> f (i + j) x = g (i + j) x) ->
    mapiM f i xs = mapiM g i xs.
Proof.
  induction xs as [|x xs IH]; intros i Hfg; simpl; [done|].
  pose proof (Hfg 0 x eq_refl) as H0. rewrite Nat.add_0_r in H0. rewrite H0.
  rewrite (IH (S i)); [done|].
  intros j x' Hj. rewrite Nat.add_succ_comm. by apply (Hfg (S j)).
Qed.

Lemma mapiM_all_ok {A B : Type} (f : nat -> A -> result B) (xs : list A) :
  forall i, (forall j x, xs !! j = Some x -> is_ok (f (i + j) x) = true) ->
    is_ok (mapiM f i xs) = true.
Proof.
  induction xs as [|x xs IH]; intros i Hok; simpl; [done|].
  specialize (Hok 0 x eq_refl) as Hx. rewrite Nat.add_0_r in Hx.
  destruct (f i x) as [y|e]; [simpl|done].
  specialize (IH (S i)).
  destruct (mapiM f (S i) xs) as [ys|e]; [done|]. simpl. apply IH.
  intros j x' Hj. rewrite Nat.add_succ_comm. by apply (Hok (S j)).
Qed.

Lemma mapValuesM_ok_inv {A B : Type} (f : A -> string -> result B) (obj : list (string * A)) :
  forall out, mapValuesM f obj = Ok out ->
    out.*1 = obj.*1 /\
    forall j k y, out !! j = Some (k, y) -> exists v, obj !! j = Some (k, v) /\ f v k = Ok y.
Proof.
  induction obj as [|[k v] obj IH]; intros out; simpl.
  - intros [= <-]. split; [done|]. intros j k y Hj. by rewrite lookup_nil in Hj.
  - destruct (f v k) as [y|e] eqn:Hf; simpl; [|done].
    destruct (mapValuesM f obj) as [out'|e] eqn:Hrest; simpl; [|done].
    intros [= <-]. destruct (IH _ eq_refl) as [Hkeys Hall].
    split; [csimpl; by rewrite Hkeys|].
    intros [|j] k' y' Hj; simpl in *.
    + injection Hj as <- <-. by exists v.
    + by apply Hall.
Qed.

Lemma mapiM_err_first {A B : Type} (f : nat -> A -> result B) (xs : list A) :
  forall i e,
    mapiM f i xs = Err e <->
    exists j x,
      xs !! j = Some x /\ f (i + j) x = Err e /\
      forall j' x', j' < j -> xs !! j' = Some x' -> is_ok (f (i + j') x') = true.
Proof.
  induction xs as [|x xs IH]; intros i e; simpl.
  - split; [done|]. by intros (j & x & Hj & _).
  - destruct (f i x) as [y|e'] eqn:Hfx; simpl.
    + destruct (mapiM f (S i) xs) as [ys|e'] eqn:Hrest; simpl.
      * split; [done|]. intros (j & x' & Hj & Hf & Hbefore).
        destruct j as [|j]; simpl in Hj.
        { injection Hj as <-. rewrite Nat.add_0_r in Hf. congruence. }
        assert (mapiM f (S i) xs = Err e) as Hcontra; [|congruence].
        apply IH. exists j, x'. split_and!; [done|by rewrite Nat.add_succ_comm|].
        intros j' x'' Hlt Hj'. rewrite Nat.add_succ_comm.
        apply (Hbefore (S j') x''); [lia | done].
      * split.
        -- intros [= ->]. apply IH in Hrest as (j & x' & Hj & Hf & Hbefore).
           exists (S j), x'. split_and!; [done|by rewrite <- Nat.add_succ_comm|].
           intros [|j'] x'' Hlt Hj'; simpl in Hj'.
           ++ injection Hj' as <-. by rewrite Nat.add_0_r, Hfx.
           ++ rewrite <- Nat.add_succ_comm. apply (Hbefore j' x''); [lia | done].
        -- intros (j & x' & Hj & Hf & Hbefore). f_equal.
           destruct j as [|j]; simpl in Hj.
           { injection Hj as <-. rewrite Nat.add_0_r in Hf. congruence. }
           assert (mapiM f (S i) xs = Err e) as Hsame; [|congruence].
           apply IH. exists j, x'. split_and!; [done|by rewrite Nat.add_succ_comm|].
           intros j' x'' Hlt Hj'. rewrite Nat.add_succ_comm.
           apply (Hbefore (S j') x''); [lia | done].
    + split.
      * intros [= ->]. exists 0, x. split_and!; [done|by rewrite Nat.add_0_r|].
        intros j' x' Hlt. lia.
      * intros (j & x' & Hj & Hf & Hbefore). f_equal.
        destruct j as [|j]; simpl in Hj.
        { injection Hj as <-. rewrite Nat.add_0_r in Hf. congruence. }
        specialize (Hbefore 0 x ltac:(lia) eq_refl).
        by rewrite Nat.add_0_r, Hfx in Hbefore.
Qed.

Lemma mapValuesM_lookup {A B : Type} (f : A -> string -> result B) (obj : list (string * A)) :
  forall out, mapValuesM f obj = Ok out ->
    forall j k v, obj !! j = Some (k, v) -> exists y, f v k = Ok y /\ out !! j = Some (k, y).
Proof.
  induction obj as [|[k0 v0] obj IH]; intros out; simpl.
  - intros _ j k v Hj. by rewrite lookup_nil in Hj.
  - destruct (f v0 k0) as [y|e] eqn:Hf; simpl; [|done].
    destruct (mapValuesM f obj) as [out'|e] eqn:Hrest; simpl; [|done].
    intros [= <-] [|j] k v Hj; simpl in *.
    + injection Hj as <- <-. by exists y.
    + by eapply IH.
Qed.


(** ** [buildType], branch by branch *)

Lemma buildType_eq propName s knownTypes hook :
  buildType propName s knownTypes hook =
  let name := uppercamelcase propName in
  match oneOf s with
  | Some cases =>
      types ← mapiM (fun i caseSchema =>
                 buildType (name +:+ ".oneOf[" +:+ caseKey i +:+ "]")
                   (unwrapThen caseSchema) knownTypes hook) 0 cases;
      Ok (GraphQLUnionType name (buildDescription s) types)
  | None =>
      if typeIs s "object" then
        Ok (GraphQLObjectType name (buildDescription s) (Thunk name s hook)
              ((fun f => f name ObjectMarker) <$> hook))
      else if typeIs s "array" then
        match items s with
        | Some itemSchema =>
            elementType ← buildType name itemSchema knownTypes hook;
            Ok (GraphQLList (GraphQLNonNull elementType))
        | None => Err TypeErrorUndefined
        end
      else
        match enum s with
        | Some values =>
            if negb (typeIs s "string") then Err (OnlyStringEnums name)
            else Ok (GraphQLEnumType name (buildDescription s)
                       (keyBy values graphqlSafeEnumKey)
                       ((fun f => f name EnumMarker) <$> hook))
        | None =>
            match ref_ s with
            | Some ref =>
                match getKey knownTypes ref with
                | Some t => Ok t
                | None => Err (UnknownReference ref name)
                end
            | None =>
                match type s ≫= BASIC_TYPE_MAPPING with
                | Some t => Ok t
                | None => Err (UnknownType (type s) name)
                end
            end
        end
  end.
Proof. by destruct s. Qed.

Lemma eagerRefs_eq s :
  eagerRefs s =
  match oneOf s with
  | Some cases => flat_map (fun c => eagerRefs (unwrapThen c)) cases
  | None =>
      if typeIs s "object" then []
      else if typeIs s "array" then
        match items s with Some itemSchema => eagerRefs itemSchema | None => [] end
      else
        match enum s with
        | Some _ => []
        | None => match ref_ s with Some ref => [ref] | None => [] end
        end
  end.
Proof. by destruct s. Qed.


(** A [$ref] that [buildType] reaches and the registry lacks makes the
    call fail, whatever encloses the [$ref] node. *)
Lemma buildType_missing_ref knownTypes hook k :
  getKey knownTypes k = None ->
  forall s propName, k ∈ eagerRefs s -> is_ok (buildType propName s knownTypes hook) = false.
Proof.
  intros Hk s. induction s as [s IHcases IHitems _] using schema_ind.
  intros propName. rewrite eagerRefs_eq, buildType_eq. cbv zeta.
  destruct (oneOf s) as [cases|].
  - intros (j & c & Hj & Hin)%elem_of_flat_map.
    specialize (IHcases _ eq_refl). rewrite Forall_lookup in IHcases.
    destruct (mapiM _ 0 cases) as [types|e] eqn:Hmap; [|done].
    apply mapiM_ok_inv in Hmap as [_ Hall].
    destruct (Hall j c Hj) as (y & _ & Hy).
    apply (f_equal is_ok) in Hy. by erewrite IHcases in Hy.
  - destruct (typeIs s "object"); [by intros ?%elem_of_nil|].
    destruct (typeIs s "array").
    { destruct (items s) as [itemSchema|]; [|done].
      intros Hin. specialize (IHitems _ eq_refl (uppercamelcase propName) Hin).
      by destruct (buildType _ itemSchema _ _). }
    destruct (enum s); [by intros ?%elem_of_nil|].
    destruct (ref_ s) as [ref|]; [|by intros ?%elem_of_nil].
    intros ->%list_elem_of_singleton. by rewrite Hk.
Qed.


(** [buildType] reads the registry only at the keys it reaches. *)
Lemma buildType_ext knownTypes knownTypes' hook s :
  forall propName,
    (forall k, k ∈ eagerRefs s -> getKey knownTypes k = getKey knownTypes' k) ->
    buildType propName s knownTypes hook = buildType propName s knownTypes' hook.
Proof.
  induction s as [s IHcases IHitems _] using schema_ind.
  intros propName. rewrite eagerRefs_eq, !buildType_eq. cbv zeta.
  destruct (oneOf s) as [cases|].
  - intros Hsame. specialize (IHcases _ eq_refl). rewrite Forall_lookup in IHcases.
    erewrite mapiM_ext; [done|]. intros j c Hj. apply (IHcases j c Hj).
    intros k Hk. apply Hsame, elem_of_flat_map; eauto.
  - destruct (typeIs s "object"); [done|].
    destruct (typeIs s "array").
    { destruct (items s) as [itemSchema|]; [|done].
      intros Hsame. by rewrite (IHitems _ eq_refl _ Hsame). }
    destruct (enum s); [done|].
    destruct (ref_ s) as [ref|]; [|done].
    intros Hsame. rewrite (Hsame ref); [done|]. by apply list_elem_of_singleton.
Qed.

(** What [buildType] returns is never a non-null wrapper, unless the
    registry holds one. *)
Lemma buildType_nullable knownTypes hook propName s t :
  nullableRegistry knownTypes ->
  buildType propName s knownTypes hook = Ok t ->
  isNonNullType t = false.
Proof.
  intros Hreg. rewrite buildType_eq. cbv zeta.
  destruct (oneOf s) as [cases|].
  { destruct (mapiM _ 0 cases); simpl; [|done]. by intros [= <-]. }
  destruct (typeIs s "object"); [by intros [= <-]|].
  destruct (typeIs s "array").
  { destruct (items s) as [itemSchema|]; [|done].
    destruct (buildType _ itemSchema _ _); simpl; [|done]. by intros [= <-]. }
  destruct (enum s).
  { destruct (negb _); [done|]. by intros [= <-]. }
  destruct (ref_ s) as [ref|].
  { destruct (getKey knownTypes ref) as [t'|] eqn:Hlook; [|done].
    intros [= <-]. by eapply Hreg. }
  destruct (type s ≫= BASIC_TYPE_MAPPING) as [t'|] eqn:Hbasic; [|done].
  intros [= <-]. destruct (type s) as [ty|]; [|done].
  simpl in Hbasic. unfold BASIC_TYPE_MAPPING in Hbasic.
  repeat case_match; by simplify_eq.
Qed.

(** ** The reducer and the fold *)

Lemma schemaReducer_ok_inv knownTypes data knownTypes' :
  schemaReducer knownTypes data = Ok knownTypes' ->
  exists typeName t,
    id_ (schema data) = Some typeName /\
    buildType typeName (schema data) knownTypes (getTypeProperties data) = Ok t /\
    knownTypes' = setKey knownTypes typeName t.
Proof.
  unfold schemaReducer. destruct (id_ (schema data)) as [typeName|]; [|done].
  destruct (buildType _ _ _ _) as [t|e] eqn:Hbuild; simpl; [|done].
  intros [= <-]. by exists typeName, t.
Qed.

Lemma schemaReducer_ok knownTypes data typeName t :
  id_ (schema data) = Some typeName ->
  buildType typeName (schema data) knownTypes (getTypeProperties data) = Ok t ->
  schemaReducer knownTypes data = Ok (setKey knownTypes typeName t).
Proof. intros Hid Hbuild. unfold schemaReducer. by rewrite Hid, Hbuild. Qed.

Lemma reduce_app {A B : Type} (f : A -> B -> result A) (xs ys : list B) (init : A) :
  reduce f (xs ++ ys) init = (acc ← reduce f xs init; reduce f ys acc).
Proof.
  revert init. induction xs as [|x xs IH]; intros init; simpl; [done|].
  destruct (f init x) as [acc|e]; simpl; [apply IH | done].
Qed.

(** After a fold the registry has its initial own keys and the [$id]s of
    the documents folded, [__proto__] apart, and no other. *)
Lemma reduce_schemaReducer_dom docs :
  forall knownTypes knownTypes',
    reduce schemaReducer docs knownTypes = Ok knownTypes' ->
    dom (own knownTypes') = dom (own knownTypes) ∪ list_to_set (ownIds docs).
Proof.
  induction docs as [|data docs IH]; intros knownTypes knownTypes'; simpl.
  - intros [= <-]. unfold ownIds, docIds. simpl. set_solver.
  - destruct (schemaReducer knownTypes data) as [acc|e] eqn:Hstep; simpl; [|done].
    intros Hrest. apply IH in Hrest as ->.
    apply schemaReducer_ok_inv in Hstep as (typeName & t & Hid & _ & ->).
    unfold ownIds, docIds. simpl. rewrite Hid. simpl.
    rewrite (elem_of_ownIds_cons typeName), own_setKey. set_solver.
Qed.

Lemma elem_of_ownIds docs k :
  k ∈ ownIds docs <-> k ∈ docIds docs /\ k <> "__proto__".
Proof. unfold ownIds. rewrite list_elem_of_filter. tauto. Qed.

Lemma ownIds_no_proto docs : "__proto__" ∉ docIds docs -> ownIds docs = docIds docs.
Proof.
  unfold ownIds. induction (docIds docs) as [|k ids IH]; [done|].
  intros [Hne Hnot]%not_elem_of_cons. rewrite filter_cons.
  rewrite decide_True by (by intros ->). by rewrite IH.
Qed.

(** A fold over documents none of which is named [__proto__] leaves the
    prototype of the registry as it was. *)
Lemma reduce_schemaReducer_proto docs :
  forall knownTypes knownTypes',
    reduce schemaReducer docs knownTypes = Ok knownTypes' ->
    "__proto__" ∉ docIds docs ->
    proto knownTypes' = proto knownTypes.
Proof.
  induction docs as [|data docs IH]; intros knownTypes knownTypes'; simpl.
  - by intros [= <-].
  - destruct (schemaReducer knownTypes data) as [acc|e] eqn:Hstep; simpl; [|done].
    intros Hrest Hk.
    apply schemaReducer_ok_inv in Hstep as (typeName & t & Hid & _ & ->).
    unfold docIds in Hk. simpl in Hk. rewrite Hid in Hk. simpl in Hk.
    apply not_elem_of_cons in Hk as [Hne Hk].
    rewrite (IH _ _ Hrest Hk). by apply proto_setKey_ne.
Qed.

(** On the registry of a batch folded from the empty one a read finds a
    value exactly under the [$id]s of the batch, under the names of the
    members of [Object.prototype], and under the keys of the prototype a
    document named [__proto__] has installed. *)
Lemma reduce_schemaReducer_lookup docs knownTypes k :
  reduce schemaReducer docs emptyTypeMap = Ok knownTypes ->
  is_Some (getKey knownTypes k) <->
  k ∈ docIds docs \/ k ∈ objectPrototypeKeys \/
  exists v, proto knownTypes = Some v /\ chainHas v k = true.
Proof.
  intros Hfold%reduce_schemaReducer_dom.
  rewrite getKey_is_Some, Hfold. cbn [emptyTypeMap own]. rewrite dom_empty_L.
  rewrite elem_of_union, elem_of_empty, elem_of_list_to_set, elem_of_ownIds.
  split.
  - intros [[[] | [? _]] | [? | ?]]; [by left | by right; left | by right; right].
  - intros [Hin | [? | ?]]; [| by right; left | by right; right].
    destruct (decide (k = "__proto__")) as [-> | Hne].
    + right. left. set_solver.
    + left. right. done.
Qed.

(** A batch without a document named [__proto__] leaves the prototype of
    the registry alone. *)
Lemma reduce_schemaReducer_lookup_plain docs knownTypes k :
  reduce schemaReducer docs emptyTypeMap = Ok knownTypes ->
  "__proto__" ∉ docIds docs ->
  is_Some (getKey knownTypes k) <-> k ∈ docIds docs \/ k ∈ objectPrototypeKeys.
Proof.
  intros Hfold Hproto. rewrite (reduce_schemaReducer_lookup _ _ _ Hfold).
  rewrite (reduce_schemaReducer_proto _ _ _ Hfold Hproto). cbn [emptyTypeMap proto].
  split; [intros [? | [? | (v & ? & _)]]; [by left | by right | done] | intros [? | ?]; tauto].
Qed.

Lemma reduce_schemaReducer_frame docs :
  forall knownTypes knownTypes' k,
    reduce schemaReducer docs knownTypes = Ok knownTypes' ->
    "__proto__" ∉ docIds docs ->
    k ∉ docIds docs ->
    getKey knownTypes' k = getKey knownTypes k.
Proof.
  induction docs as [|data docs IH]; intros knownTypes knownTypes' k; simpl.
  - by intros [= <-].
  - destruct (schemaReducer knownTypes data) as [acc|e] eqn:Hstep; simpl; [|done].
    intros Hrest Hproto Hk.
    apply schemaReducer_ok_inv in Hstep as (typeName & t & Hid & _ & ->).
    unfold docIds in Hk, Hproto. simpl in Hk, Hproto. rewrite Hid in Hk, Hproto.
    simpl in Hk, Hproto.
    apply not_elem_of_cons in Hk as [Hne Hk].
    apply not_elem_of_cons in Hproto as [Hne' Hproto].
    rewrite (IH _ _ _ Hrest Hproto Hk). by rewrite getKey_setKey_ne.
Qed.


Lemma reduce_schemaReducer_ids docs :
  forall knownTypes knownTypes',
    reduce schemaReducer docs knownTypes = Ok knownTypes' ->
    length (docIds docs) = length docs.
Proof.
  induction docs as [|data docs IH]; intros knownTypes knownTypes'; simpl; [done|].
  destruct (schemaReducer knownTypes data) as [acc|e] eqn:Hstep; simpl; [|done].
  intros Hrest. apply schemaReducer_ok_inv in Hstep as (typeName & t & Hid & _ & ->).
  unfold docIds. simpl. rewrite Hid. simpl. f_equal. by eapply IH.
Qed.

Lemma nullableRegistry_empty : nullableRegistry emptyTypeMap.
Proof.
  intros k t. rewrite getKey_emptyTypeMap. destruct (isObjectPrototypeKey k); [|done].
  by intros [= <-].
Qed.

Lemma reduce_schemaReducer_nullable docs :
  forall knownTypes knownTypes',
    nullableRegistry knownTypes ->
    reduce schemaReducer docs knownTypes = Ok knownTypes' ->
    nullableRegistry knownTypes'.
Proof.
  induction docs as [|data docs IH]; intros knownTypes knownTypes' Hreg; simpl.
  - by intros [= <-].
  - destruct (schemaReducer knownTypes data) as [acc|e] eqn:Hstep; simpl; [|done].
    apply IH.
    apply schemaReducer_ok_inv in Hstep as (typeName & t & _ & Hbuild & ->).
    intros k t' [-> | [Hget | ->]]%getKey_setKey_cases.
    + by eapply buildType_nullable.
    + by eapply Hreg.
    + done.
Qed.

(** Every registry [convert] builds is free of non-null wrappers. *)
Lemma convertTypes_nullable jsonSchema hook knownTypes :
  convertTypes jsonSchema hook = Ok knownTypes -> nullableRegistry knownTypes.
Proof. apply reduce_schemaReducer_nullable, nullableRegistry_empty. Qed.

(** The thunk of an object whose property is a bare [$ref] reads the
    registry it is called on. *)
Lemma fields_reads_registry_at_call name s hook fieldName ref knownTypes :
  properties s = Some [(fieldName, refNode ref)] ->
  fields (Thunk name s hook) knownTypes =
  match getKey knownTypes ref with
  | Some t =>
      Ok [(fieldName, Field (if isRequired s fieldName then GraphQLNonNull t else t) None)]
  | None => Err (UnknownReference ref (uppercamelcase (name +:+ "." +:+ fieldName)))
  end.
Proof.
  intros Hprops. unfold fields, isEmptyProperties. simpl. rewrite Hprops. simpl.
  by destruct (getKey knownTypes ref).
Qed.

(** ** The description composer *)

(** C3, as amended.  With "present" read as "defined and not the empty
    string": [buildDescription] returns ["<title>: <description>"] when both
    are present, the one that is present when exactly one is, and
    [undefined] otherwise; it never returns the empty string.  It is a total
    function of the node. *)
Theorem C3_buildDescription_nonempty (d : JSONSchema7) :
  (forall t dsc, title d = Some t -> description d = Some dsc -> t <> "" -> dsc <> "" ->
     buildDescription d = Some (t +:+ ": " +:+ dsc)) /\
  (forall t, title d = Some t -> t <> "" -> truthy (description d) = false ->
     buildDescription d = Some t) /\
  (forall dsc, description d = Some dsc -> dsc <> "" -> truthy (title d) = false ->
     buildDescription d = Some dsc) /\
  (truthy (title d) = false -> truthy (description d) = false ->
     buildDescription d = None) /\
  buildDescription d <> Some "".
Proof.
  unfold buildDescription, truthy.
  destruct (title d) as [t|], (description d) as [dsc|]; simpl;
    repeat match goal with
           | |- context [String.eqb ?x ""] => destruct (String.eqb_spec x ""); simpl
           end;
    split_and!; intros; simplify_eq; try done.
  all: try congruence.
  intros [= Happ]. by destruct t.
Qed.

(** ** Object types *)


(** C5.  A node that takes the object branch with [properties] empty or
    absent yields an object type whose field map, on whatever registry it
    is evaluated, is the single field [_empty] of type [GraphQLString]. *)
Theorem C5_empty_placeholder (s : JSONSchema7) propName knownTypes hook :
  oneOf s = None ->
  type s = Some "object" ->
  properties s = None \/ properties s = Some [] ->
  exists t,
    buildType propName s knownTypes hook = Ok t /\
    isObjectType t = true /\
    forall knownTypes', getFields t knownTypes' = Ok [("_empty", Field GraphQLString None)].
Proof.
  intros Hone Htype Hprops. rewrite buildType_eq. cbv zeta. rewrite Hone.
  unfold typeIs at 1. rewrite Htype, bool_decide_eq_true_2 by done.
  eexists. split; [done|]. split; [done|].
  intros knownTypes'. unfold getFields, fields, isEmptyProperties. simpl.
  by destruct Hprops as [-> | ->].
Qed.

(** ** Arrays *)


(** ** Enums *)

(** C7.  A node that reaches the enum branch fails exactly when its [type]
    is not ["string"], with the error of line 89; on ["string"] it returns
    the enum type. *)
Theorem C7_enum_string_only (s : JSONSchema7) values propName knownTypes hook :
  oneOf s = None ->
  type s <> Some "object" ->
  type s <> Some "array" ->
  enum s = Some values ->
  ((exists e, buildType propName s knownTypes hook = Err e) <-> type s <> Some "string") /\
  (type s = Some "string" ->
     buildType propName s knownTypes hook =
     Ok (GraphQLEnumType (uppercamelcase propName) (buildDescription s)
           (keyBy values graphqlSafeEnumKey)
           ((fun f => f (uppercamelcase propName) EnumMarker) <$> hook))) /\
  (type s <> Some "string" ->
     buildType propName s knownTypes hook = Err (OnlyStringEnums (uppercamelcase propName))).
Proof.
  intros Hone Hobj Harr Henum. rewrite buildType_eq. cbv zeta.
  rewrite Hone, Henum. unfold typeIs.
  rewrite !bool_decide_eq_false_2 by done.
  destruct (bool_decide_reflect (type s = Some "string")) as [Hstr|Hstr]; simpl.
  - split_and!; [|done|done]. split; [by intros [e ?]|done].
  - split_and!; [|done|done]. split; [done|]. intros _. by eexists.
Qed.

(** ** Primitives *)

(** C8.  A node whose only discriminant is one of the four primitive type
    names yields the entry of [BASIC_TYPE_MAPPING] for it, a constant: the
    same value for every qualified name, registry and hook, with no
    constructor applied. *)
Theorem C8_primitive_shared (s : JSONSchema7) ty :
  oneOf s = None ->
  enum s = None ->
  ref_ s = None ->
  type s = Some ty ->
  ty ∈ ["string"; "integer"; "number"; "boolean"] ->
  exists prim,
    (ty, prim) ∈ [("string", GraphQLString); ("integer", GraphQLInt);
                  ("number", GraphQLFloat); ("boolean", GraphQLBoolean)] /\
    BASIC_TYPE_MAPPING ty = Some prim /\
    forall propName knownTypes hook, buildType propName s knownTypes hook = Ok prim.
Proof.
  intros Hone Henum Href Htype Hty.
  assert (exists prim,
    (ty, prim) ∈ [("string", GraphQLString); ("integer", GraphQLInt);
                  ("number", GraphQLFloat); ("boolean", GraphQLBoolean)] /\
    BASIC_TYPE_MAPPING ty = Some prim /\ typeIs s "object" = false /\ typeIs s "array" = false)
    as (prim & Hin & Hmap & Hobj & Harr).
  { unfold typeIs. rewrite Htype.
    repeat (apply elem_of_cons in Hty as [-> | Hty]);
      [eexists; split_and!; [|reflexivity|done|done]; set_solver ..|].
    by apply elem_of_nil in Hty. }
  exists prim. split_and!; [done|done|].
  intros propName knownTypes hook. rewrite buildType_eq. cbv zeta.
  rewrite Hone, Hobj, Harr, Henum, Href, Htype. simpl. by rewrite Hmap.
Qed.

(** ** References *)





(** ** The registry after a batch *)

Lemma reduce_independent (ids : list string) (docs : list SchemaData) :
  forall knownTypes,
    NoDup (docIds docs) ->
    "__proto__" ∉ docIds docs ->
    (forall k, k ∈ docIds docs -> k ∈ ids /\ own knownTypes !! k = None) ->
    (forall k, k ∉ ids -> getKey knownTypes k = getKey emptyTypeMap k) ->
    (forall data, data ∈ docs ->
       (exists typeName t,
          id_ (schema data) = Some typeName /\
          buildType typeName (schema data) emptyTypeMap (getTypeProperties data) = Ok t) /\
       forall k, k ∈ eagerRefs (schema data) -> k ∉ ids) ->
    exists knownTypes',
      reduce schemaReducer docs knownTypes = Ok knownTypes' /\
      size (own knownTypes') = size (own knownTypes) + length docs /\
      (forall k, k ∉ docIds docs -> getKey knownTypes' k = getKey knownTypes k) /\
      (forall data typeName t,
         data ∈ docs ->
         id_ (schema data) = Some typeName ->
         buildType typeName (schema data) emptyTypeMap (getTypeProperties data) = Ok t ->
         getKey knownTypes' typeName = Some t).
Proof.
  induction docs as [|data docs IH]; intros knownTypes Hnodup Hproto Hfresh Hout Hall.
  - exists knownTypes. simpl. split_and!; [done|lia|done|].
    intros data typeName t Hin. by apply elem_of_nil in Hin.
  - destruct (Hall data ltac:(by left)) as [(typeName & t & Hid & Hbuild) Hrefs].
    unfold docIds in Hnodup, Hproto, Hfresh. simpl in Hnodup, Hproto, Hfresh.
    rewrite Hid in Hnodup, Hproto, Hfresh. simpl in Hnodup, Hproto, Hfresh.
    apply NoDup_cons in Hnodup as [Hnotin Hnodup].
    apply not_elem_of_cons in Hproto as [Hne Hproto].
    assert (buildType typeName (schema data) knownTypes (getTypeProperties data) = Ok t)
      as Hstep.
    { rewrite <- Hbuild. apply buildType_ext. intros k Hk. by apply Hout, Hrefs. }
    assert (setKey knownTypes typeName t =
            TypeMap (<[typeName := t]> (own knownTypes)) (proto knownTypes)) as Hset.
    { unfold setKey. by destruct (String.eqb_spec typeName "__proto__"). }
    destruct (IH (setKey knownTypes typeName t)) as (knownTypes' & Hfold & Hsize & Hframe & Hlook).
    + done.
    + done.
    + intros k Hk. destruct (Hfresh k ltac:(by right)) as [Hids Hown]. split; [done|].
      rewrite Hset. cbn [own]. rewrite lookup_insert_ne; [done|]. by intros ->.
    + intros k Hk. rewrite getKey_setKey_ne; [by apply Hout|done|].
      intros Heq. apply Hk. rewrite <- Heq. by apply (Hfresh typeName); left.
    + intros data' Hin. apply Hall. by right.
    + exists knownTypes'. cbn [reduce].
      rewrite (schemaReducer_ok knownTypes data typeName t Hid Hstep).
      split_and!; [done| | |].
      * rewrite Hsize, Hset. cbn [own]. rewrite map_size_insert_None; [simpl; lia|].
        by apply (Hfresh typeName); left.
      * intros k Hk. unfold docIds in Hk. simpl in Hk. rewrite Hid in Hk. simpl in Hk.
        apply not_elem_of_cons in Hk as [Hne' Hk].
        rewrite (Hframe k Hk). by rewrite getKey_setKey_ne.
      * intros data' typeName' t' [-> | Hin]%elem_of_cons Hid' Hbuild'.
        -- rewrite Hid in Hid'. injection Hid' as <-. rewrite Hbuild in Hbuild'.
           injection Hbuild' as <-. rewrite (Hframe typeName Hnotin).
           by rewrite getKey_setKey_eq.
        -- by eapply Hlook.
Qed.

(** C9, as amended.  For a batch of N documents whose [$id]s are present,
    pairwise distinct and none of them [__proto__], each of which compiles
    on its own (on the empty registry) and looks up no [$ref] that is the
    [$id] of a document of the batch, the fold over the empty registry
    succeeds, and its registry has exactly N own keys, exactly the N
    [$id]s, each holding the type its document compiles to on its own. *)
Theorem C9_independent_batch (docs : list SchemaData) :
  NoDup (docIds docs) ->
  "__proto__" ∉ docIds docs ->
  (forall data, data ∈ docs ->
     exists typeName t,
       id_ (schema data) = Some typeName /\
       buildType typeName (schema data) emptyTypeMap (getTypeProperties data) = Ok t) ->
  (forall data k, data ∈ docs -> k ∈ eagerRefs (schema data) -> k ∉ docIds docs) ->
  exists knownTypes,
    reduce schemaReducer docs emptyTypeMap = Ok knownTypes /\
    size (own knownTypes) = length docs /\
    dom (own knownTypes) = list_to_set (docIds docs) /\
    (forall data typeName t,
       data ∈ docs ->
       id_ (schema data) = Some typeName ->
       buildType typeName (schema data) emptyTypeMap (getTypeProperties data) = Ok t ->
       getKey knownTypes typeName = Some t).
Proof.
  intros Hnodup Hproto Hall Hrefs.
  destruct (reduce_independent (docIds docs) docs emptyTypeMap Hnodup Hproto)
    as (knownTypes & Hfold & Hsize & _ & Hlook).
  - intros k Hk. split; [done|]. apply lookup_empty.
  - done.
  - intros data Hin. split; [by apply Hall|]. intros k Hk. by eapply Hrefs.
  - exists knownTypes. split_and!; [done| | |done].
    + rewrite Hsize. cbn [emptyTypeMap own]. by rewrite map_size_empty.
    + rewrite (reduce_schemaReducer_dom _ _ _ Hfold). cbn [emptyTypeMap own].
      by rewrite dom_empty_L, union_empty_l_L, ownIds_no_proto.
Qed.


(** ** When [buildType] succeeds, and what its errors say *)



(** An unknown-reference error of [buildType] names a key the node reaches
    and the registry lacks; [buildType] never raises the missing-[$id]
    error of the reducer. *)
Lemma buildType_err_inv knownTypes hook s :
  forall propName e,
    buildType propName s knownTypes hook = Err e ->
    e <> MissingId /\
    forall k name, e = UnknownReference k name -> k ∈ eagerRefs s /\ getKey knownTypes k = None.
Proof.
  induction s as [s IHcases IHitems _] using schema_ind.
  intros propName e. rewrite eagerRefs_eq, buildType_eq. cbv zeta.
  destruct (oneOf s) as [cases|].
  - specialize (IHcases _ eq_refl). rewrite Forall_lookup in IHcases.
    destruct (mapiM _ 0 cases) as [types|e'] eqn:Hmap; [done|].
    intros [= <-]. apply mapiM_err_inv in Hmap as (j & c & Hj & Hc).
    destruct (IHcases j c Hj _ _ Hc) as [Hne Hrefs]. split; [done|].
    intros k name Heq. destruct (Hrefs k name Heq) as [Hk Hnone].
    split; [|done]. apply elem_of_flat_map; eauto.
  - destruct (typeIs s "object"); [done|].
    destruct (typeIs s "array").
    { destruct (items s) as [itemSchema|]; [|by intros [= <-]].
      destruct (buildType _ itemSchema _ _) as [t|e'] eqn:Hitem; [done|].
      intros [= <-]. by eapply IHitems. }
    destruct (enum s).
    { destruct (negb _); [|done]. by intros [= <-]. }
    destruct (ref_ s) as [ref|].
    + destruct (getKey knownTypes ref) eqn:Hlook; [done|].
      intros [= <-]. split; [done|]. intros k name [= <- <-].
      split; [by apply list_elem_of_singleton | done].
    + destruct (type s ≫= BASIC_TYPE_MAPPING); [done|]. by intros [= <-].
Qed.


(** X2.  A node that compiles on a registry compiles to the same type on
    every registry that yields the same value wherever the first yields
    one: keys added later change nothing, unless they shadow a member of
    [Object.prototype] that was found before. *)
Theorem X2_buildType_monotone (s : JSONSchema7) propName knownTypes knownTypes' hook t :
  extendsTypeMap knownTypes knownTypes' ->
  buildType propName s knownTypes hook = Ok t ->
  buildType propName s knownTypes' hook = Ok t.
Proof.
  intros Hsub Hbuild. rewrite <- Hbuild. symmetry. apply buildType_ext.
  intros k Hk. destruct (getKey knownTypes k) as [t'|] eqn:Hlook.
  - symmetry. by apply Hsub.
  - pose proof (buildType_missing_ref knownTypes hook k Hlook s propName Hk) as Hfail.
    by rewrite Hbuild in Hfail.
Qed.


(** X4.  A step of [schemaReducer] fails with the missing-[$id] error
    exactly when the document has no [$id]. *)
Theorem X4_missing_id_iff knownTypes (data : SchemaData) :
  schemaReducer knownTypes data = Err MissingId <-> id_ (schema data) = None.
Proof.
  unfold schemaReducer. destruct (id_ (schema data)) as [typeName|]; [|done].
  split; [|done].
  destruct (buildType _ _ _ _) as [t|e] eqn:Hbuild; simpl; [done|].
  intros [= ->]. by destruct (buildType_err_inv _ _ _ _ _ Hbuild) as [Hne _].
Qed.

(** ** Unions and field maps *)

(** X5.  A node with [oneOf] becomes a union, whatever else the node
    carries: named with the camel-cased [propName], described by the node
    itself, with one member per case in the order of the cases, the member
    of case [j] being the build of the case (of its [then], when it has
    one) under the name extended with [.oneOf[j]]. *)
Theorem X5_union_members (s : JSONSchema7) cases propName knownTypes hook t :
  oneOf s = Some cases ->
  buildType propName s knownTypes hook = Ok t ->
  exists types,
    t = GraphQLUnionType (uppercamelcase propName) (buildDescription s) types /\
    length types = length cases /\
    forall j c, cases !! j = Some c ->
      exists member,
        types !! j = Some member /\
        buildType (uppercamelcase propName +:+ ".oneOf[" +:+ caseKey j +:+ "]")
          (unwrapThen c) knownTypes hook = Ok member.
Proof.
  intros Hone. rewrite buildType_eq. cbv zeta. rewrite Hone.
  destruct (mapiM _ 0 cases) as [types|e] eqn:Hmap; simpl; [|done].
  intros [= <-]. exists types. split; [done|].
  apply mapiM_ok_inv in Hmap as [Hlen Hall]. split; [done|].
  intros j c Hj. destruct (Hall j c Hj) as (member & Hmember & Hbuild). by exists member.
Qed.

(** X6.  A node with [oneOf] fails exactly with the error of its first
    failing case: the cases before it were built and are discarded, the
    cases after it are not looked at. *)
Theorem X6_union_first_failure (s : JSONSchema7) cases propName knownTypes hook e :
  oneOf s = Some cases ->
  (buildType propName s knownTypes hook = Err e <->
   exists j c,
     cases !! j = Some c /\
     buildType (uppercamelcase propName +:+ ".oneOf[" +:+ caseKey j +:+ "]")
       (unwrapThen c) knownTypes hook = Err e /\
     forall j' c', j' < j -> cases !! j' = Some c' ->
       is_ok (buildType (uppercamelcase propName +:+ ".oneOf[" +:+ caseKey j' +:+ "]")
                (unwrapThen c') knownTypes hook) = true).
Proof.
  intros Hone. rewrite buildType_eq. cbv zeta. rewrite Hone.
  rewrite <- (mapiM_err_first
    (fun i c => buildType (uppercamelcase propName +:+ ".oneOf[" +:+ caseKey i +:+ "]")
                  (unwrapThen c) knownTypes hook) cases 0 e).
  destruct (mapiM _ 0 cases) as [types|e']; simpl; [done|]. split; congruence.
Qed.

(** X7.  The field map of an object with properties, when its evaluation
    succeeds, follows the properties one for one and in order: the field of
    a property carries the description composed from the property, and the
    type built from the property under the object's name extended with
    [.fieldName], with the object's hook, on the registry of the call,
    wrapped as non-null when the name is required. *)
Theorem X7_fields_follow_properties name (s : JSONSchema7) hook knownTypes props flds :
  properties s = Some props ->
  props <> [] ->
  fields (Thunk name s hook) knownTypes = Ok flds ->
  flds.*1 = props.*1 /\
  forall j fieldName prop, props !! j = Some (fieldName, prop) ->
    exists t,
      buildType (name +:+ "." +:+ fieldName) prop knownTypes hook = Ok t /\
      flds !! j =
      Some (fieldName,
            Field (if isRequired s fieldName then GraphQLNonNull t else t)
              (buildDescription prop)).
Proof.
  intros Hprops Hne. unfold fields, isEmptyProperties. cbv zeta.
  cbn [thunk_schema thunk_name thunk_hook]. rewrite Hprops.
  destruct props as [|p0 props'] eqn:Hp; [done|]. rewrite <- Hp. clear Hp Hne.
  cbn [negb default from_option id]. intros Hmap. split.
  - by apply mapValuesM_ok_inv in Hmap as [Hkeys _].
  - intros j fieldName prop Hj.
    destruct (mapValuesM_lookup _ _ _ Hmap j fieldName prop Hj) as (fld & Hfld & Hlook).
    destruct (buildType _ prop _ _) as [t|e]; simpl in Hfld; [|done].
    injection Hfld as <-. by exists t.
Qed.



(** ** The fold, document by document *)

Lemma size_list_to_set_le (l : list string) :
  size (list_to_set l : gset string) <= length l /\
  (size (list_to_set l : gset string) = length l <-> NoDup l).
Proof.
  induction l as [|x l [IHle IHiff]]; simpl.
  - split; [done|]. split; [constructor | done].
  - destruct (decide (x ∈ l)) as [Hin|Hnotin].
    + assert ({[x]} ∪ list_to_set l = (list_to_set l : gset string)) as -> by set_solver.
      split; [lia|]. split; [lia|]. by intros [? _]%NoDup_cons.
    + rewrite size_union by set_solver. rewrite size_singleton.
      split; [lia|]. rewrite NoDup_cons. split.
      * intros Hsize. split; [done|]. apply IHiff. lia.
      * intros [_ Hnodup]. apply IHiff in Hnodup. lia.
Qed.

Lemma NoDup_ownIds docs :
  NoDup (ownIds docs) /\ length (ownIds docs) = length (docIds docs) <->
  NoDup (docIds docs) /\ "__proto__" ∉ docIds docs.
Proof.
  unfold ownIds. induction (docIds docs) as [|k ids IH].
  - split; intros _; (split; [apply NoDup_nil_2 | first [done | apply not_elem_of_nil]]).
  - rewrite filter_cons. destruct (decide (k <> "__proto__")) as [Hne|Heq].
    + simpl. rewrite !NoDup_cons, not_elem_of_cons, list_elem_of_filter. split.
      * intros [[Hnot Hnodup] Hlen]. injection Hlen as Hlen.
        destruct (proj1 IH (conj Hnodup Hlen)) as [Hnd Hpr].
        split; [split; [|done] | split; [by intros Heq; apply Hne | done]].
        intros Hin. by apply Hnot.
      * intros [[Hnot Hnodup] [_ Hproto]].
        destruct (proj2 IH (conj Hnodup Hproto)) as [Hnd Hlen].
        split; [split; [by intros [_ ?] | done] | by rewrite Hlen].
    + pose proof (length_filter (fun k => k <> "__proto__") ids) as Hle. simpl. split.
      * intros [_ Hlen]. lia.
      * rewrite not_elem_of_cons. intros [_ [Hk _]]. exfalso.
        apply Heq. intros ->. by apply Hk.
Qed.

(** X10.  The own keys of the registry of a batch folded from the empty one
    are the [$id]s of the batch, [__proto__] apart, and every document has
    an [$id]; the registry has at most as many own keys as the batch has
    documents, and exactly as many when no [$id] is repeated and none is
    [__proto__], and only then. *)
Theorem X10_registry_size (docs : list SchemaData) knownTypes :
  reduce schemaReducer docs emptyTypeMap = Ok knownTypes ->
  dom (own knownTypes) = list_to_set (docIds docs) ∖ {["__proto__"]} /\
  length (docIds docs) = length docs /\
  size (own knownTypes) <= length docs /\
  (size (own knownTypes) = length docs <->
   NoDup (docIds docs) /\ "__proto__" ∉ docIds docs).
Proof.
  intros Hfold.
  assert (dom (own knownTypes) = list_to_set (ownIds docs)) as Hdom.
  { rewrite (reduce_schemaReducer_dom _ _ _ Hfold). cbn [emptyTypeMap own].
    by rewrite dom_empty_L, union_empty_l_L. }
  pose proof (reduce_schemaReducer_ids _ _ _ Hfold) as Hlen.
  destruct (size_list_to_set_le (ownIds docs)) as [Hle Hiff].
  pose proof (length_filter (fun k => k <> "__proto__") (docIds docs)) as Hfilter.
  fold (ownIds docs) in Hfilter.
  split_and!.
  - rewrite Hdom. apply set_eq. intros k.
    rewrite elem_of_difference, !elem_of_list_to_set, elem_of_ownIds, elem_of_singleton.
    done.
  - done.
  - rewrite <- size_dom, Hdom. lia.
  - rewrite <- size_dom, Hdom, <- NoDup_ownIds, <- Hiff. lia.
Qed.


(** X12.  The fold fails exactly when some document fails on the registry
    of the documents before it, all of which compiled; the error of the
    fold is the error of that document, and the documents after it play no
    part. *)
Theorem X12_fold_fails_at_first_failure (docs : list SchemaData) knownTypes e :
  reduce schemaReducer docs knownTypes = Err e <->
  exists (pre : list SchemaData) data post acc,
    docs = (pre ++ data :: post)%list /\
    reduce schemaReducer pre knownTypes = Ok acc /\
    schemaReducer acc data = Err e.
Proof.
  split.
  - revert knownTypes. induction docs as [|data docs IH]; intros knownTypes; simpl; [done|].
    destruct (schemaReducer knownTypes data) as [acc|e'] eqn:Hstep; simpl.
    + intros (pre & data' & post & acc' & -> & Hpre & Hfail)%IH.
      exists (data :: pre), data', post, acc'. split_and!; [done| |done].
      simpl. by rewrite Hstep.
    + intros [= ->]. by exists [], data, docs, knownTypes.
  - intros (pre & data & post & acc & -> & Hpre & Hfail).
    rewrite reduce_app, Hpre. simpl. by rewrite Hfail.
Qed.

(** ** The wrappers *)




(** ** The values of an enum *)

Lemma assign_elem_of {V : Type} (obj : list (string * V)) k v k' v' :
  NoDup obj.*1 ->
  (k', v') ∈ assign obj k v <-> (k' = k /\ v' = v) \/ (k' <> k /\ (k', v') ∈ obj).
Proof.
  induction obj as [|[k0 v0] obj IH]; simpl.
  - intros _. rewrite list_elem_of_singleton. split.
    + intros [= -> ->]. by left.
    + intros [[-> ->] | [_ Hin]]; [done | by apply elem_of_nil in Hin].
  - intros [Hfresh Hnodup]%NoDup_cons.
    destruct (String.eqb_spec k0 k) as [-> | Hne].
    + rewrite !elem_of_cons. split.
      * intros [[= -> ->] | Hin]; [by left|]. right. split; [|by right].
        intros ->. apply Hfresh. apply list_elem_of_fmap. by exists (k, v').
      * intros [[-> ->] | [Hne' [[= -> ->] | Hin]]]; [by left | done | by right].
    + rewrite !elem_of_cons, (IH Hnodup). split.
      * intros [[= -> ->] | [[-> ->] | [Hne' Hin]]].
        -- right. split; [done | by left].
        -- by left.
        -- right. split; [done | by right].
      * intros [[-> ->] | [Hne' [[= -> ->] | Hin]]].
        -- right. by left.
        -- by left.
        -- right. right. done.
Qed.

Lemma assign_keys {V : Type} (obj : list (string * V)) k v :
  (assign obj k v).*1 = if decide (k ∈ obj.*1) then obj.*1 else (obj.*1 ++ [k])%list.
Proof.
  induction obj as [|[k0 v0] obj IH].
  - destruct (decide (k ∈ ([] : list (string * V)).*1)) as [Hin|_]; [|done].
    by apply elem_of_nil in Hin.
  - cbn [assign]. destruct (String.eqb_spec k0 k) as [-> | Hne].
    + destruct (decide (k ∈ ((k, v0) :: obj).*1)) as [_|Hnotin]; [done|].
      exfalso. apply Hnotin. by left.
    + change (((k0, v0) :: assign obj k v).*1) with (k0 :: (assign obj k v).*1).
      rewrite IH.
      destruct (decide (k ∈ obj.*1)) as [Hin|Hnotin],
               (decide (k ∈ ((k0, v0) :: obj).*1)) as [Hin'|Hnotin']; try done.
      * exfalso. apply Hnotin'. by right.
      * exfalso. apply elem_of_cons in Hin' as [-> | Hin']; [done|]. done.
Qed.

Lemma assign_NoDup {V : Type} (obj : list (string * V)) k v :
  NoDup obj.*1 -> NoDup (assign obj k v).*1.
Proof.
  intros Hnodup. rewrite assign_keys. case_decide as Hin; [done|].
  apply NoDup_app. split_and!; [done| |apply NoDup_singleton].
  by intros k' Hk' ->%list_elem_of_singleton.
Qed.

Lemma keyBy_fold (key : string -> string) (values : list string) :
  forall acc : list (string * string),
    NoDup acc.*1 ->
    let out := foldl (fun obj v => assign obj (key v) v) acc values in
    NoDup out.*1 /\
    forall k v,
      (k, v) ∈ out <->
      (exists vs1 vs2, values = (vs1 ++ v :: vs2)%list /\ k = key v /\ k ∉ key <$> vs2) \/
      ((k, v) ∈ acc /\ k ∉ key <$> values).
Proof.
  induction values as [|x xs IH]; intros acc Hnodup; simpl.
  - split; [done|]. intros k v. split.
    + intros Hin. right. split; [done | apply not_elem_of_nil].
    + intros [(vs1 & vs2 & Heq & _) | [Hin _]]; [by destruct vs1 | done].
  - destruct (IH (assign acc (key x) x) (assign_NoDup _ _ _ Hnodup)) as [Hout Hiff].
    split; [done|]. intros k v. rewrite Hiff, (assign_elem_of acc _ _ _ _ Hnodup). split.
    + intros [(vs1 & vs2 & -> & Hk & Hlast) | [[[-> ->] | [Hne Hin]] Hxs]].
      * left. by exists (x :: vs1), vs2.
      * left. by exists [], xs.
      * right. split; [done|]. by intros [? | ?]%elem_of_cons.
    + intros [(vs1 & vs2 & Heq & Hk & Hlast) | [Hin Hxs]].
      * destruct vs1 as [|x' vs1]; simpl in Heq; injection Heq as -> ->.
        -- right. split; [by left | done].
        -- left. by exists vs1, vs2.
      * apply not_elem_of_cons in Hxs as [Hne Hxs]. right. split; [by right | done].
Qed.

Lemma keyBy_fresh (key : string -> string) (values : list string) :
  forall acc : list (string * string),
    NoDup (acc.*1 ++ (key <$> values))%list ->
    foldl (fun obj v => assign obj (key v) v) acc values =
    (acc ++ ((fun v => (key v, v)) <$> values))%list.
Proof.
  induction values as [|x xs IH]; intros acc Hnodup; simpl.
  - by rewrite app_nil_r.
  - assert (assign acc (key x) x = (acc ++ [(key x, x)])%list) as ->.
    { clear IH. apply NoDup_app in Hnodup as (_ & Hdisj & _).
      assert (key x ∉ acc.*1) as Hfresh.
      { intros Hin. apply (Hdisj _ Hin). by left. }
      clear Hdisj. induction acc as [|[k0 v0] acc IHacc]; simpl; [done|].
      destruct (String.eqb_spec k0 (key x)) as [-> | Hne].
      - exfalso. apply Hfresh. by left.
      - f_equal. apply IHacc. intros Hin. apply Hfresh. by right. }
    rewrite IH.
    + by rewrite <- app_assoc.
    + rewrite fmap_app. simpl. by rewrite <- app_assoc.
Qed.

(** X14.  The enum built from a node keeps, for each key the sanitiser
    produces, exactly one entry: the last of the node's values that
    sanitises to that key.  Earlier values with the same key are dropped. *)
Theorem X14_enum_later_value_wins (s : JSONSchema7) values propName knownTypes hook :
  oneOf s = None ->
  type s = Some "string" ->
  enum s = Some values ->
  exists entries extra,
    buildType propName s knownTypes hook =
    Ok (GraphQLEnumType (uppercamelcase propName) (buildDescription s) entries extra) /\
    NoDup entries.*1 /\
    forall k v,
      (k, v) ∈ entries <->
      exists vs1 vs2,
        values = (vs1 ++ v :: vs2)%list /\ k = graphqlSafeEnumKey v /\
        k ∉ graphqlSafeEnumKey <$> vs2.
Proof.
  intros Hone Htype Henum. rewrite buildType_eq. cbv zeta.
  rewrite Hone, Henum. unfold typeIs. rewrite Htype.
  rewrite !bool_decide_eq_false_2 by done. rewrite bool_decide_eq_true_2 by done. simpl.
  eexists _, _. split; [done|].
  destruct (keyBy_fold graphqlSafeEnumKey values [] (NoDup_nil_2)) as [Hnodup Hiff].
  split; [done|]. intros k v. unfold keyBy. rewrite Hiff. split.
  - intros [Hsplit | [Hin _]]; [done | by apply elem_of_nil in Hin].
  - intros Hsplit. by left.
Qed.

(** X15.  When no two values of the node sanitise to the same key, the
    enum has one entry per value, each value under its own key: read back,
    the values of the enum are the values of the node. *)
Theorem X15_enum_values_round_trip (s : JSONSchema7) values propName knownTypes hook :
  oneOf s = None ->
  type s = Some "string" ->
  enum s = Some values ->
  NoDup (graphqlSafeEnumKey <$> values) ->
  exists entries extra,
    buildType propName s knownTypes hook =
    Ok (GraphQLEnumType (uppercamelcase propName) (buildDescription s) entries extra) /\
    entries ≡ₚ (fun v => (graphqlSafeEnumKey v, v)) <$> values /\
    entries.*2 ≡ₚ values.
Proof.
  intros Hone Htype Henum Hnodup. rewrite buildType_eq. cbv zeta.
  rewrite Hone, Henum. unfold typeIs. rewrite Htype.
  rewrite !bool_decide_eq_false_2 by done. rewrite bool_decide_eq_true_2 by done. simpl.
  eexists _, _. split; [done|]. unfold keyBy.
  rewrite (keyBy_fresh graphqlSafeEnumKey values [] Hnodup). simpl.
  split; [done|].
  assert (((fun v => (graphqlSafeEnumKey v, v)) <$> values).*2 = values) as ->; [|done].
  clear. induction values as [|v values IH]; csimpl; [done | by rewrite IH].
Qed.


End Reducer.

(** ** Closed instances *)


(** A stand-in for graphql-js in the closed instances: a type that has
    become the prototype of the registry brings no key of its own.  No
    instance below reads a key through a replaced prototype. *)
Definition noInstanceMembers : GraphQLType unit -> string -> bool := fun _ _ => false.

Abbreviation buildType' := (buildType unit upperCamelCaseModel safeEnumKeyModel noInstanceMembers).
Abbreviation getFields' := (getFields unit upperCamelCaseModel safeEnumKeyModel noInstanceMembers).
Abbreviation fields' := (fields unit upperCamelCaseModel safeEnumKeyModel noInstanceMembers).
Abbreviation schemaReducer' := (schemaReducer unit upperCamelCaseModel safeEnumKeyModel noInstanceMembers).
Abbreviation convertTypes' := (convertTypes unit upperCamelCaseModel safeEnumKeyModel noInstanceMembers).
Abbreviation doc' := (fun s => mkSchemaData unit s None).
Abbreviation empty' := (emptyTypeMap unit).
Abbreviation getKey' := (getKey unit noInstanceMembers).
Abbreviation setKey' := (setKey unit).





(** C3, the claim as stated fails.  [title] and [description] are both
    present, and the result is the description alone. *)
Lemma C3_counterexample :
  title emptyTitle = Some "" /\
  description emptyTitle = Some "d" /\
  buildDescription emptyTitle = Some "d" /\
  buildDescription emptyTitle <> Some ("" +:+ ": " +:+ "d").
Proof. split_and!; [reflexivity ..|]. discriminate. Qed.

Lemma C3_witness :
  title titled = Some "T" /\ description titled = Some "D" /\
  buildDescription titled = Some "T: D".
Proof.
  split_and!; [reflexivity | reflexivity |].
  apply (proj1 (C3_buildDescription_nonempty titled) "T" "D"); [reflexivity | reflexivity | | ];
    discriminate.
Defined.


Lemma C5_witness :
  oneOf (typedDoc "A" "object") = None /\
  type (typedDoc "A" "object") = Some "object" /\
  properties (typedDoc "A" "object") = None /\
  exists t,
    buildType' "A" (typedDoc "A" "object") empty' None = Ok t /\
    isObjectType unit t = true /\
    forall knownTypes', getFields' t knownTypes' = Ok [("_empty", Field unit (GraphQLString unit) None)].
Proof.
  split_and!; [reflexivity ..|].
  exact (C5_empty_placeholder unit upperCamelCaseModel safeEnumKeyModel noInstanceMembers
           (typedDoc "A" "object") "A" empty' None eq_refl eq_refl (or_introl eq_refl)).
Defined.


Lemma C7_witness :
  oneOf docE = None /\ type docE <> Some "object" /\ type docE <> Some "array" /\
  enum docE = Some ["a"; "b"] /\
  buildType' "E" docE empty' None =
  Ok (GraphQLEnumType unit "E" None [("a", "a"); ("b", "b")] None).
Proof.
  split_and!; [reflexivity | discriminate | discriminate | reflexivity |].
  exact (proj1 (proj2 (C7_enum_string_only unit upperCamelCaseModel safeEnumKeyModel noInstanceMembers
                         docE ["a"; "b"] "E" empty' None eq_refl
                         ltac:(discriminate) ltac:(discriminate) eq_refl)) eq_refl).
Defined.

Lemma C8_witness :
  "integer" ∈ ["string"; "integer"; "number"; "boolean"] /\
  exists prim,
    ("integer", prim) ∈ [("string", GraphQLString unit); ("integer", GraphQLInt unit);
                         ("number", GraphQLFloat unit); ("boolean", GraphQLBoolean unit)] /\
    BASIC_TYPE_MAPPING unit "integer" = Some prim /\
    forall propName knownTypes hook,
      buildType' propName (typedDoc "n" "integer") knownTypes hook = Ok prim.
Proof.
  assert ("integer" ∈ ["string"; "integer"; "number"; "boolean"]) as Hin by (right; by left).
  split; [exact Hin|].
  exact (C8_primitive_shared unit upperCamelCaseModel safeEnumKeyModel noInstanceMembers
           (typedDoc "n" "integer") "integer" eq_refl eq_refl eq_refl eq_refl Hin).
Defined.

(** C9, the claim as stated fails.  Two documents, each with an [$id] and
    neither with a [$ref]: the registry of the batch has one entry.  One
    document with an [$id] and no [$ref], of a type the reducer does not
    know: the fold fails and there is no registry.  One document with the
    [$id] ["__proto__"] and no [$ref]: the fold succeeds and the registry
    has no entry, the type having become its prototype. *)
Lemma C9_counterexample :
  (exists knownTypes,
     convertTypes' [typedDoc "A" "string"; typedDoc "A" "integer"] None = Ok knownTypes /\
     size (own unit knownTypes) = 1 /\
     getKey' knownTypes "A" = Some (GraphQLInt unit)) /\
  convertTypes' [typedDoc "N" "null"] None = Err (UnknownType (Some "null") "N") /\
  (exists knownTypes,
     convertTypes' [docProto] None = Ok knownTypes /\
     size (own unit knownTypes) = 0 /\
     is_Some (proto unit knownTypes)).
Proof.
  split_and!; [eexists; split_and! | | eexists; split_and!];
    try (vm_compute; reflexivity).
  vm_compute. by eexists.
Qed.

Lemma C9_witness :
  NoDup (docIds unit [doc' docA; doc' docB]) /\
  ("__proto__" ∉ docIds unit [doc' docA; doc' docB]) /\
  exists knownTypes,
    reduce schemaReducer' [doc' docA; doc' docB] empty' = Ok knownTypes /\
    size (own unit knownTypes) = 2 /\
    dom (own unit knownTypes) = list_to_set ["A"; "B"].
Proof.
  assert (NoDup (docIds unit [doc' docA; doc' docB])) as Hnodup.
  { repeat constructor; set_solver. }
  assert ("__proto__" ∉ docIds unit [doc' docA; doc' docB]) as Hproto.
  { intros [? | [? | ?%elem_of_nil]%elem_of_cons]%elem_of_cons; [discriminate | discriminate | done]. }
  split; [exact Hnodup|]. split; [exact Hproto|].
  destruct (C9_independent_batch unit upperCamelCaseModel safeEnumKeyModel noInstanceMembers
              [doc' docA; doc' docB] Hnodup Hproto) as (knownTypes & Hfold & Hsize & Hdom & _).
  - intros data [-> | [-> | Hin]%elem_of_cons]%elem_of_cons.
    + by eexists _, _.
    + by eexists _, _.
    + by apply elem_of_nil in Hin.
  - intros data k [-> | [-> | Hin]%elem_of_cons]%elem_of_cons Hk.
    + by apply elem_of_nil in Hk.
    + by apply elem_of_nil in Hk.
    + by apply elem_of_nil in Hin.
  - exists knownTypes. split_and!; [exact Hfold | exact Hsize | exact Hdom].
Defined.



(** ** Examples *)

(** The object of section 8 of the specification: one non-null string field
    [name]. *)
Example required_name_field :
  exists t,
    buildType' "B" docB empty' None = Ok t /\
    getFields' t empty' =
    Ok [("name", Field unit (GraphQLNonNull unit (GraphQLString unit)) None)].
Proof. eexists. split; vm_compute; reflexivity. Qed.

(** A [$ref] inside the [then] of a [oneOf] case is looked up by the step
    itself: with [B] registered and [A] not, the step on [U] fails at the
    second case. *)
Example union_case_aborts_step :
  exists name,
    schemaReducer' (setKey' empty' "B" (GraphQLBoolean unit)) (doc' docU) =
    Err (UnknownReference "A" name).
Proof. eexists. vm_compute. reflexivity. Qed.

(** The same batch in the other order: [L] after [B] resolves its [items]. *)
Example later_document_sees_earlier :
  exists knownTypes tB,
    convertTypes' [docB; docL] None = Ok knownTypes /\
    getKey' knownTypes "B" = Some tB /\
    getKey' knownTypes "L" = Some (GraphQLList unit (GraphQLNonNull unit tB)).
Proof. do 2 eexists. split_and!; vm_compute; reflexivity. Qed.

(** ** Closed instances of the further properties *)

Lemma X2_witness :
  extendsTypeMap unit noInstanceMembers (setKey' empty' "B" (GraphQLBoolean unit))
    (setKey' (setKey' empty' "B" (GraphQLBoolean unit)) "C" (GraphQLInt unit)) /\
  buildType' "L" docL
    (setKey' (setKey' empty' "B" (GraphQLBoolean unit)) "C" (GraphQLInt unit)) None =
  Ok (GraphQLList unit (GraphQLNonNull unit (GraphQLBoolean unit))).
Proof.
  assert (extendsTypeMap unit noInstanceMembers (setKey' empty' "B" (GraphQLBoolean unit))
            (setKey' (setKey' empty' "B" (GraphQLBoolean unit)) "C" (GraphQLInt unit))) as Hsub.
  { intros k t Hk. destruct (decide ("C" = k)) as [<- | Hne].
    - vm_compute in Hk. discriminate.
    - rewrite getKey_setKey_ne; [exact Hk | discriminate | exact Hne]. }
  split; [exact Hsub|].
  apply (X2_buildType_monotone unit upperCamelCaseModel safeEnumKeyModel noInstanceMembers
           docL "L" (setKey' empty' "B" (GraphQLBoolean unit)) _ None _ Hsub).
  vm_compute. reflexivity.
Defined.


Lemma X5_witness :
  oneOf docU <> None /\
  exists types,
    buildType' "U" docU
      (setKey' (setKey' empty' "A" (GraphQLInt unit)) "B" (GraphQLBoolean unit)) None =
    Ok (GraphQLUnionType unit "U" None types) /\
    length types = 2 /\
    types !! 0 = Some (GraphQLBoolean unit) /\
    types !! 1 = Some (GraphQLInt unit).
Proof.
  split; [discriminate|].
  destruct (buildType' "U" docU
              (setKey' (setKey' empty' "A" (GraphQLInt unit)) "B" (GraphQLBoolean unit)) None)
    as [t|e] eqn:Hbuild; [|vm_compute in Hbuild; discriminate].
  destruct (X5_union_members unit upperCamelCaseModel safeEnumKeyModel noInstanceMembers
              docU _ "U" _ None t eq_refl Hbuild) as (types & -> & Hlen & Hmembers).
  destruct (Hmembers 0 _ eq_refl) as (m0 & Hm0 & Hb0).
  destruct (Hmembers 1 _ eq_refl) as (m1 & Hm1 & Hb1).
  vm_compute in Hb0. injection Hb0 as <-.
  vm_compute in Hb1. injection Hb1 as <-.
  exists types. split_and!; [reflexivity | exact Hlen | exact Hm0 | exact Hm1].
Defined.

Lemma X6_witness :
  oneOf docU <> None /\
  exists e, buildType' "U" docU (setKey' empty' "B" (GraphQLBoolean unit)) None = Err e.
Proof.
  split; [discriminate|]. eexists.
  apply (proj2 (X6_union_first_failure unit upperCamelCaseModel safeEnumKeyModel noInstanceMembers
                  docU _ "U" (setKey' empty' "B" (GraphQLBoolean unit)) None _ eq_refl)).
  eexists 1, _. split_and!; [reflexivity | vm_compute; reflexivity |].
  intros [|j'] c' Hlt Hj'; [|lia]. injection Hj' as <-. vm_compute. reflexivity.
Defined.

Lemma X7_witness :
  properties docB <> None /\
  exists flds,
    fields' (Thunk unit "B" docB None) empty' = Ok flds /\
    flds.*1 = ["name"] /\
    flds !! 0 = Some ("name", Field unit (GraphQLNonNull unit (GraphQLString unit)) None).
Proof.
  split; [discriminate|].
  destruct (fields' (Thunk unit "B" docB None) empty') as [flds|e] eqn:Hfields;
    [|vm_compute in Hfields; discriminate].
  destruct (X7_fields_follow_properties unit upperCamelCaseModel safeEnumKeyModel noInstanceMembers
              "B" docB None empty' _ flds eq_refl ltac:(discriminate) Hfields) as [Hkeys Hall].
  destruct (Hall 0 _ _ eq_refl) as (t & Hbuild & Hlook).
  vm_compute in Hbuild. injection Hbuild as <-.
  exists flds. split_and!; [reflexivity | exact Hkeys | exact Hlook].
Defined.



Lemma X10_witness :
  exists knownTypes,
    reduce schemaReducer' [doc' (typedDoc "A" "string"); doc' (typedDoc "A" "integer")] empty' =
    Ok knownTypes /\
    size (own unit knownTypes) <= 2 /\
    ~ NoDup (docIds unit [doc' (typedDoc "A" "string"); doc' (typedDoc "A" "integer")]) /\
    size (own unit knownTypes) <> 2.
Proof.
  destruct (reduce schemaReducer'
              [doc' (typedDoc "A" "string"); doc' (typedDoc "A" "integer")] empty')
    as [knownTypes|e] eqn:Hfold; [|vm_compute in Hfold; discriminate].
  destruct (X10_registry_size unit upperCamelCaseModel safeEnumKeyModel noInstanceMembers _ _ Hfold)
    as (_ & _ & Hle & Hiff).
  assert (~ NoDup (docIds unit [doc' (typedDoc "A" "string"); doc' (typedDoc "A" "integer")]))
    as Hdup.
  { intros [Hnotin _]%NoDup_cons. apply Hnotin. by left. }
  exists knownTypes. split_and!; [reflexivity | exact Hle | exact Hdup |].
  intros Hsize. apply Hdup. by apply Hiff.
Defined.



Lemma X14_witness :
  enum docDup = Some ["a"; "b"; "a"] /\
  exists entries extra,
    buildType' "D" docDup empty' None = Ok (GraphQLEnumType unit "D" None entries extra) /\
    NoDup entries.*1 /\
    ("a", "a") ∈ entries /\ ("b", "b") ∈ entries.
Proof.
  split; [reflexivity|].
  destruct (X14_enum_later_value_wins unit upperCamelCaseModel safeEnumKeyModel noInstanceMembers
              docDup ["a"; "b"; "a"] "D" empty' None eq_refl eq_refl eq_refl)
    as (entries & extra & Hbuild & Hnodup & Hiff).
  exists entries, extra. split_and!; [exact Hbuild | exact Hnodup | |].
  - apply Hiff. exists ["a"; "b"], []. split_and!; [reflexivity | reflexivity |].
    apply not_elem_of_nil.
  - apply Hiff. exists ["a"], ["a"]. split_and!; [reflexivity | reflexivity |].
    intros Hin%list_elem_of_singleton. discriminate.
Defined.

Lemma X15_witness :
  NoDup (safeEnumKeyModel <$> ["a"; "b"]) /\
  exists entries extra,
    buildType' "E" docE empty' None = Ok (GraphQLEnumType unit "E" None entries extra) /\
    entries.*2 ≡ₚ ["a"; "b"].
Proof.
  assert (NoDup (safeEnumKeyModel <$> ["a"; "b"])) as Hnodup.
  { repeat constructor; set_solver. }
  split; [exact Hnodup|].
  destruct (X15_enum_values_round_trip unit upperCamelCaseModel safeEnumKeyModel noInstanceMembers
              docE ["a"; "b"] "E" empty' None eq_refl eq_refl eq_refl Hnodup)
    as (entries & extra & Hbuild & _ & Hvalues).
  exists entries, extra. split; [exact Hbuild | exact Hvalues].
Defined.


(** A cycle between two object documents: each is compiled without the
    other, and each field resolves to the other's type once both are
    registered. *)
Example mutual_references_resolve :
  exists knownTypes tA tB,
    convertTypes' [docA; docBack] None = Ok knownTypes /\
    getKey' knownTypes "A" = Some tA /\
    getKey' knownTypes "B" = Some tB /\
    getFields' tA knownTypes = Ok [("b", Field unit tB None)] /\
    getFields' tB knownTypes = Ok [("a", Field unit tA None)].
Proof. do 3 eexists. split_and!; vm_compute; reflexivity. Qed.

(** The registry is a plain object: a document named [__proto__] becomes
    its prototype, and is what a later [$ref] to [__proto__] finds. *)
Example proto_document_is_found :
  exists knownTypes t,
    convertTypes' [docProto] None = Ok knownTypes /\
    own unit knownTypes = ∅ /\
    proto unit knownTypes = Some t /\
    buildType' "x" (refNode "__proto__") knownTypes None = Ok t.
Proof. do 2 eexists. split_and!; vm_compute; reflexivity. Qed.
